(** * A shallow embedding of ryvencore-qt's tools, wrappers and Session *)

From Stdlib Require Import ZArith Lia Ascii String Sorting.Sorted.
From stdpp Require Import base list gmap strings.

Open Scope Z_scope.

(** ** Python strings and the Python built-ins [shorten] uses *)

(** A Python [str] as the list of its characters. *)
Abbreviation pystr := (list ascii).

Definition lit (s : string) : pystr := list_ascii_of_string s.

(** [len(s)] *)
Definition py_len (s : pystr) : Z := Z.of_nat (length s).

(** Python's [round] applied to the exact half-integer [n / 2]: an integer is
    returned as it is, a value ending in [.5] goes to the even neighbour
    (round half to even). *)
Definition py_round_half (n : Z) : Z :=
  if Z.even n then n / 2
  else let fl := n / 2 in if Z.even fl then fl else fl + 1.

(** Normalisation of a slice bound: negative bounds count from the end,
    then the bound is clamped into [0, len]. *)
Definition py_slice_index (s : pystr) (k : Z) : nat :=
  let k' := if k <? 0 then k + py_len s else k in
  Z.to_nat (Z.max 0 (Z.min k' (py_len s))).

(** [s[:k]] *)
Definition py_slice_to (s : pystr) (k : Z) : pystr := take (py_slice_index s k) s.

(** [s[k:]] *)
Definition py_slice_from (s : pystr) (k : Z) : pystr := drop (py_slice_index s k) s.

(** ** tools.py *)

Definition newline : ascii := Ascii.ascii_of_nat 10.

(** The marker [shorten] inserts. *)
Definition shorten_insert (line_break : bool) : pystr :=
  let insert := lit " . . . " in
  if line_break then [newline] ++ insert ++ [newline] else insert.

(** [shorten(s, max_chars, line_break)]; [(max_chars-insert_length)/2] is the
    half-integer [(max_chars-insert_length) / 2], and
    [l-((max_chars-insert_length)/2)] is [(2*l-(max_chars-insert_length)) / 2]. *)
Definition shorten (s : pystr) (max_chars : Z) (line_break : bool) : pystr :=
  let l := py_len s in
  if max_chars <? l then
    let insert := shorten_insert line_break in
    let insert_length := py_len insert in
    let left := py_slice_to s (py_round_half (max_chars - insert_length)) in
    let right := py_slice_from s (py_round_half (2 * l - (max_chars - insert_length))) in
    left ++ insert ++ right
  else s.

(** [str.split('\n')] *)
Fixpoint split_lines (s : pystr) : list pystr :=
  match s with
  | [] => [[]]
  | c :: rest =>
      let ls := split_lines rest in
      if Ascii.eqb c newline then [] :: ls
      else match ls with
           | [] => [[c]]
           | l :: ls' => (c :: l) :: ls'
           end
  end.

(** [line.replace('\n', '')] *)
Definition remove_newlines (line : pystr) : pystr :=
  List.filter (fun c => negb (Ascii.eqb c newline)) line.

(** The loop of [get_longest_line]: the final value of [longest_line_found]
    and of the loop variable [line] (the loop runs at least once, since
    [split] never returns an empty list). *)
Fixpoint longest_loop (lines : list pystr) (found : pystr) (line : pystr)
  : pystr * pystr :=
  match lines with
  | [] => (found, line)
  | l :: rest =>
      let found' := if Nat.ltb (length found) (length l) then l else found in
      longest_loop rest found' l
  end.

(** [get_longest_line(s)]: it returns [line], the loop variable. *)
Definition get_longest_line (s : pystr) : pystr :=
  let lines := map remove_newlines (split_lines s) in
  snd (longest_loop lines [] []).

(** The value the loop computes in [longest_line_found]. *)
Definition longest_line_found (s : pystr) : pystr :=
  let lines := map remove_newlines (split_lines s) in
  fst (longest_loop lines [] []).

(** ** ryvencore/Base.py: the ID counter *)

(** Python exceptions the modelled code can raise. *)
Inductive exn :=
  | Exception (msg : string)
  | KeyError
  | TypeError.

Record IDCtr := mkIDCtr { ctr : Z }.

(** [IDCtr()] *)
Definition IDCtr_init : IDCtr := mkIDCtr (-1).

(** [IDCtr.count]: increments the counter and returns the new count. *)
Definition IDCtr_count (c : IDCtr) : Z * IDCtr :=
  let c' := mkIDCtr (ctr c + 1) in (ctr c', c').

(** [IDCtr.set_count(cnt)], state passing: the outcome (an exception or
    [None]) and the counter object after the call. *)
Definition IDCtr_set_count (c : IDCtr) (cnt : Z) : (exn + unit) * IDCtr :=
  if cnt <? ctr c then (inl (Exception "Decreasing ID counters is illegal"), c)
  else (inr tt, mkIDCtr cnt).

(** A sequence of calls on one counter: [count()], or [set_count(cnt)]
    with the caller catching the exception of an illegal decrement. *)
Inductive ctr_op :=
  | OpCount
  | OpSetCount (cnt : Z).

(** The IDs the [count()] calls of [ops] return, in order, and the counter
    afterwards. *)
Fixpoint run_ctr_ops (c : IDCtr) (ops : list ctr_op) : list Z * IDCtr :=
  match ops with
  | [] => ([], c)
  | OpCount :: rest =>
      let '(i, c1) := IDCtr_count c in
      let '(ids, c2) := run_ctr_ops c1 rest in (i :: ids, c2)
  | OpSetCount cnt :: rest => run_ctr_ops (snd (IDCtr_set_count c cnt)) rest
  end.

(** [n] calls of [count()] in a row. *)
Fixpoint count_n (c : IDCtr) (n : nat) : list Z * IDCtr :=
  match n with
  | O => ([], c)
  | S n' => let '(i, c1) := IDCtr_count c in
            let '(ids, c2) := count_n c1 n' in (i :: ids, c2)
  end.

(** A [Base] object's IDs. The attribute [ID] may be absent ([None]), hold
    [None] ([Some None]), or hold an ID. *)
Record BaseObj := mkBaseObj { GLOBAL_ID : Z; ID : option (option Z) }.

(** [hasattr(self, 'ID') and self.ID is not None] *)
Definition has_ID (attr : option (option Z)) : bool :=
  match attr with Some (Some _) => true | _ => false end.

(** [Base.__init__] on an object whose [ID] attribute is [preset_ID] (set
    by a subclass before), with the class attributes [global_id_ctr] and
    [id_ctr]: the object and both counters afterwards. *)
Definition Base_init (global_id_ctr : IDCtr) (id_ctr : option IDCtr)
    (preset_ID : option (option Z)) : BaseObj * IDCtr * option IDCtr :=
  let '(gid, global') := IDCtr_count global_id_ctr in
  match id_ctr with
  | Some ic =>
      if has_ID preset_ID then (mkBaseObj gid preset_ID, global', Some ic)
      else let '(i, ic') := IDCtr_count ic in
           (mkBaseObj gid (Some (Some i)), global', Some ic')
  | None => (mkBaseObj gid preset_ID, global', None)
  end.

(** Objects constructed one after the other, sharing the class counters. *)
Fixpoint Base_init_seq (global_id_ctr : IDCtr) (id_ctr : option IDCtr)
    (presets : list (option (option Z))) : list BaseObj * IDCtr * option IDCtr :=
  match presets with
  | [] => ([], global_id_ctr, id_ctr)
  | p :: rest =>
      let '(o, g1, ic1) := Base_init global_id_ctr id_ctr p in
      let '(os, g2, ic2) := Base_init_seq g1 ic1 rest in (o :: os, g2, ic2)
  end.

(** ** WRAPPERS.py and Session.py: core calls and Qt notifications *)

(** The wrapped core-library methods the wrappers call. *)
Inductive core_method :=
  | RC_Log_write | RC_Log_clear | RC_Log_disable | RC_Log_enable
  | RC_Logger_new_log
  | RC_VarsManager_create_new_var | RC_VarsManager_delete_variable
  | RC_VarsManager_set_var
  | RC_Flow_add_node | RC_Flow_remove_node
  | RC_Flow_add_connection | RC_Flow_remove_connection
  | RC_DataConnection_activate
  | RC_Session_rename_script | RC_Session_delete_script.

(** The Qt signals the wrappers emit (their payloads are left out). *)
Inductive signal :=
  | wrote | cleared | disabled | enabled
  | new_log_created
  | new_var_created | var_deleted | var_val_changed
  | node_added | node_removed | connection_added | connection_removed
  | activated
  | script_renamed | script_deleted.

(** An observable step: a wrapped core method returning, or a signal being
    emitted. *)
Inductive event :=
  | CoreCall (m : core_method)
  | Emit (s : signal).

(** A script [Variable] of the core's [VarsManager]; values stand for the
    Python objects stored in them. *)
Record Var := mkVariable { var_name : string; val : Z }.

(** The state the wrappers act on: the variables of the [VarsManager] and
    the trace of observable steps so far. *)
Record World := mkWorld { variables : list Var; trace : list event }.

(** A state and exception monad over [World]. *)
Definition M (A : Type) := World -> (exn + A) * World.

Definition ret {A} (a : A) : M A := fun w => (inr a, w).
Definition bind {A B} (m : M A) (k : A -> M B) : M B :=
  fun w => match m w with
           | (inl e, w') => (inl e, w')
           | (inr a, w') => k a w'
           end.
Definition raise {A} (e : exn) : M A := fun w => (inl e, w).

Notation "x <- m ;; k" := (bind m (fun x => k))
  (at level 100, m at next level, right associativity).
Notation "m ;; k" := (bind m (fun _ => k)) (at level 100, right associativity).

Definition record_event (e : event) : M unit :=
  fun w => (inr tt, mkWorld (variables w) (trace w ++ [e])).

(** [signal.emit(...)] *)
Definition emit (s : signal) : M unit := record_event (Emit s).

(** A wrapped core method whose effect on the core's objects is not needed
    here: only its return is observed. *)
Definition core_call (m : core_method) : M unit := record_event (CoreCall m).

Definition get_variables : M (list Var) := fun w => (inr (variables w), w).
Definition put_variables (vs : list Var) : M unit :=
  fun w => (inr tt, mkWorld vs (trace w)).

Fixpoint var_index_from (vs : list Var) (name : string) (i : nat) : option nat :=
  match vs with
  | [] => None
  | v :: rest => if String.eqb (var_name v) name then Some i
                 else var_index_from rest name (S i)
  end.

(** Modelled from the spec: the core's [VarsManager._get_var_index_from_name],
    which is not among the sources: the index of the variable of that name,
    [None] when there is none. *)
Definition get_var_index_from_name (name : string) : M (option nat) :=
  vs <- get_variables ;; ret (var_index_from vs name 0).

(** Modelled from the spec: the core's [VarsManager.set_var], which is not
    among the sources; as the wrapper's docstring says, it sets the value of
    an existing variable and "returns true in case of success, false if the
    var couldn't be found and set". *)
Definition RC_VarsManager_set_var_impl (name : string) (v : Z) : M bool :=
  i <- get_var_index_from_name name ;;
  vs <- get_variables ;;
  match i with
  | Some i =>
      match vs !! i with
      | Some var => put_variables (<[i := mkVariable (var_name var) v]> vs) ;;
                    record_event (CoreCall RC_VarsManager_set_var) ;; ret true
      | None => record_event (CoreCall RC_VarsManager_set_var) ;; ret false
      end
  | None => record_event (CoreCall RC_VarsManager_set_var) ;; ret false
  end.

(** [self.variables[i]]: an index of [None] raises [TypeError]. *)
Definition variables_at (i : option nat) : M Var :=
  match i with
  | None => raise TypeError
  | Some i => vs <- get_variables ;;
              match vs !! i with Some v => ret v | None => raise TypeError end
  end.

Module Wrappers.

Definition Log_write : M unit := core_call RC_Log_write ;; emit wrote.
Definition Log_clear : M unit := core_call RC_Log_clear ;; emit cleared.
Definition Log_disable : M unit := core_call RC_Log_disable ;; emit disabled.
Definition Log_enable : M unit := core_call RC_Log_enable ;; emit enabled.
Definition Logger_new_log : M unit := core_call RC_Logger_new_log ;; emit new_log_created.
Definition VarsManager_create_new_var : M unit :=
  core_call RC_VarsManager_create_new_var ;; emit new_var_created.
Definition VarsManager_delete_variable : M unit :=
  core_call RC_VarsManager_delete_variable ;; emit var_deleted.

(** [VarsManager.set_var(name, val)] *)
Definition VarsManager_set_var (name : string) (v : Z) : M bool :=
  b <- RC_VarsManager_set_var_impl name v ;;
  (if b then
     i <- get_var_index_from_name name ;;
     var <- variables_at i ;;
     emit var_val_changed
   else ret tt) ;;
  ret b.

Definition Flow_add_node : M unit := core_call RC_Flow_add_node ;; emit node_added.
Definition Flow_remove_node : M unit := core_call RC_Flow_remove_node ;; emit node_removed.
Definition Flow_add_connection : M unit :=
  core_call RC_Flow_add_connection ;; emit connection_added.
Definition Flow_remove_connection : M unit :=
  core_call RC_Flow_remove_connection ;; emit connection_removed.

(** [DataConnection.activate]: the signal is emitted first. *)
Definition DataConnection_activate : M unit :=
  emit activated ;; core_call RC_DataConnection_activate.

Definition Session_rename_script : M unit :=
  core_call RC_Session_rename_script ;; emit script_renamed.
Definition Session_delete_script : M unit :=
  core_call RC_Session_delete_script ;; emit script_deleted.

End Wrappers.

(** The wrapper methods named in the spec, each with the core method it wraps. *)
Inductive wrapper :=
  | W_Log_write | W_Log_clear | W_Log_enable | W_Log_disable
  | W_Logger_new_log
  | W_VarsManager_create_new_var | W_VarsManager_delete_variable
  | W_VarsManager_set_var (name : string) (v : Z)
  | W_Flow_add_node | W_Flow_remove_node
  | W_Flow_add_connection | W_Flow_remove_connection
  | W_DataConnection_activate
  | W_Session_rename_script | W_Session_delete_script.

Definition run_wrapper (w : wrapper) : M unit :=
  match w with
  | W_Log_write => Wrappers.Log_write
  | W_Log_clear => Wrappers.Log_clear
  | W_Log_enable => Wrappers.Log_enable
  | W_Log_disable => Wrappers.Log_disable
  | W_Logger_new_log => Wrappers.Logger_new_log
  | W_VarsManager_create_new_var => Wrappers.VarsManager_create_new_var
  | W_VarsManager_delete_variable => Wrappers.VarsManager_delete_variable
  | W_VarsManager_set_var name v => _ <- Wrappers.VarsManager_set_var name v ;; ret tt
  | W_Flow_add_node => Wrappers.Flow_add_node
  | W_Flow_remove_node => Wrappers.Flow_remove_node
  | W_Flow_add_connection => Wrappers.Flow_add_connection
  | W_Flow_remove_connection => Wrappers.Flow_remove_connection
  | W_DataConnection_activate => Wrappers.DataConnection_activate
  | W_Session_rename_script => Wrappers.Session_rename_script
  | W_Session_delete_script => Wrappers.Session_delete_script
  end.

Definition wrapped_method (w : wrapper) : core_method :=
  match w with
  | W_Log_write => RC_Log_write
  | W_Log_clear => RC_Log_clear
  | W_Log_enable => RC_Log_enable
  | W_Log_disable => RC_Log_disable
  | W_Logger_new_log => RC_Logger_new_log
  | W_VarsManager_create_new_var => RC_VarsManager_create_new_var
  | W_VarsManager_delete_variable => RC_VarsManager_delete_variable
  | W_VarsManager_set_var _ _ => RC_VarsManager_set_var
  | W_Flow_add_node => RC_Flow_add_node
  | W_Flow_remove_node => RC_Flow_remove_node
  | W_Flow_add_connection => RC_Flow_add_connection
  | W_Flow_remove_connection => RC_Flow_remove_connection
  | W_DataConnection_activate => RC_DataConnection_activate
  | W_Session_rename_script => RC_Session_rename_script
  | W_Session_delete_script => RC_Session_delete_script
  end.

Definition is_emit (e : event) : bool :=
  match e with Emit _ => true | CoreCall _ => false end.

(** ** Session.__init__: the class registry [CLASSES] *)

(** The classes that can be registered: the ones [Session.__init__] names,
    and classes passed in by the caller. *)
Inductive pyclass :=
  | C_Node | C_DataConnection | C_LogsManager | C_VarsManager | C_Flow
  | C_DataConnectionItem | C_ExecConnectionItem
  | C_User (n : nat).

(** The observable steps of [Session.__init__]: writes to [CLASSES], the
    core session's initialisation (with the registry as it is then), and the
    later set-up steps, which do not touch [CLASSES]. *)
Inductive init_event :=
  | RegistryAssign (key : string) (c : pyclass)
  | CoreSessionInit (registry : gmap string pyclass)
  | FlowViewsInit
  | CompleteDefaultNodeClasses
  | ThreadingBridgeSetup
  | DesignSetup.

Definition is_assign (e : init_event) : bool :=
  match e with RegistryAssign _ _ => true | _ => false end.

(** [CLASSES[key] = c] *)
Definition registry_assign (key : string) (c : pyclass)
    (st : gmap string pyclass * list init_event) : gmap string pyclass * list init_event :=
  (<[key := c]> (fst st), snd st ++ [RegistryAssign key c]).

(** [default if not arg else arg]: an argument is [None] or a class, and a
    class object is truthy. *)
Definition or_default (default : pyclass) (arg : option pyclass) : pyclass :=
  match arg with None => default | Some c => c end.

(** [Session.__init__]: the trace of its steps and [CLASSES] afterwards. *)
Definition Session_init (CLASSES : gmap string pyclass)
    (data_conn_class data_conn_item_class exec_conn_class exec_conn_item_class
     node_class : option pyclass) : list init_event * gmap string pyclass :=
  let st := (CLASSES, []) in
  let st := registry_assign "node base" (or_default C_Node node_class) st in
  let st := registry_assign "data conn" (or_default C_DataConnection data_conn_class) st in
  let st := registry_assign "logs manager" C_LogsManager st in
  let st := registry_assign "vars manager" C_VarsManager st in
  let st := registry_assign "flow" C_Flow st in
  let st := match exec_conn_class with
            | Some c => registry_assign "exec conn" c st
            | None => st
            end in
  let st := registry_assign "data conn item"
              (or_default C_DataConnectionItem data_conn_item_class) st in
  let st := registry_assign "exec conn item"
              (or_default C_ExecConnectionItem exec_conn_item_class) st in
  let tr := snd st ++ [CoreSessionInit (fst st)] in
  (tr ++ [FlowViewsInit; CompleteDefaultNodeClasses; ThreadingBridgeSetup; DesignSetup],
   fst st).

(** ** Session.serialize and Session._build_flow_view *)

(** A script object: its identity (scripts are dictionary keys by identity)
    and its title. *)
Record Script := mkScript { script_id : nat; title : string }.

Section SessionModel.

(** Serialized script configurations, as the core produces them, and the
    flow views of the GUI. *)
Context {cfg view : Type}.
(** [cfg['name']], [None] when the key is missing. *)
Context (cfg_name : cfg -> option string).
(** [FlowView.generate_config_data]: completes a script config with the
    view's layout data; its result is what the view writes into
    [view._tmp_data]. *)
Context (generate_config_data : view -> cfg -> cfg).

(** The part of [RC_Session.serialize(self)] that is read. *)
Record CoreData := mkCoreData { function_scripts : list cfg; scripts : list cfg }.

(** [Session._get_script_from_title] *)
Fixpoint get_script_from_title (all_scripts : list Script) (t : string) : option Script :=
  match all_scripts with
  | [] => None
  | s :: rest => if String.eqb (title s) t then Some s
                 else get_script_from_title rest t
  end.

(** One iteration of a loop of [serialize]: look the script up by the
    config's name, take its flow view ([flow_views[script]], a [KeyError]
    for [None] or a script without a view) and let the view complete the
    config. *)
Definition complete_script_cfg (all_scripts : list Script) (flow_views : gmap nat view)
    (c : cfg) : exn + cfg :=
  match cfg_name c with
  | None => inl KeyError
  | Some t =>
      match get_script_from_title all_scripts t with
      | None => inl KeyError
      | Some s =>
          match flow_views !! script_id s with
          | None => inl KeyError
          | Some v => inr (generate_config_data v c)
          end
      end
  end.

Fixpoint complete_all (all_scripts : list Script) (flow_views : gmap nat view)
    (cs : list cfg) : exn + list cfg :=
  match cs with
  | [] => inr []
  | c :: rest =>
      match complete_script_cfg all_scripts flow_views c with
      | inl e => inl e
      | inr c' => match complete_all all_scripts flow_views rest with
                  | inl e => inl e
                  | inr rest' => inr (c' :: rest')
                  end
      end
  end.

(** [Session.serialize]: the result dictionary as its list of items. *)
Definition Session_serialize (data : CoreData) (all_scripts : list Script)
    (flow_views : gmap nat view) : exn + list (string * list cfg) :=
  match complete_all all_scripts flow_views (function_scripts data) with
  | inl e => inl e
  | inr complete_function_scripts_data =>
      match complete_all all_scripts flow_views (scripts data) with
      | inl e => inl e
      | inr complete_scripts_data =>
          inr [("function scripts", complete_function_scripts_data);
               ("scripts", complete_scripts_data)]
      end
  end.

(** The observable steps of [_build_flow_view]. [time.sleep(0.001)] is
    [Sleep 1], in milliseconds. *)
Inductive fv_event :=
  | SetTmpDataNone
  | EmitBuildFlowViewRequest
  | Sleep (ms : nat)
  | StoreFlowView (sid : nat) (v : view)
  | EmitScriptFlowViewCreated (sid : nat) (v : view).

(** [k in d] and [d[k]] on a dictionary, as a list of items. *)
Fixpoint list_assoc (k : string) (d : list (string * cfg)) : option cfg :=
  match d with
  | [] => None
  | (k', c) :: rest => if String.eqb k' k then Some c else list_assoc k rest
  end.

(** [script_config['flow view']], or [script_config['flow']] when the
    former is missing (a [KeyError] if both are). *)
Definition flow_view_config_of (script_config : option (list (string * cfg)))
    : exn + option cfg :=
  match script_config with
  | None => inr None
  | Some d =>
      match list_assoc "flow view" d with
      | Some c => inr (Some c)
      | None => match list_assoc "flow" d with
                | Some c => inr (Some c)
                | None => inl KeyError
                end
      end
  end.

(** The value of [self.tmp_data] read at the [k]-th check of the loop, as
    written by the owning thread ([None] until it has built the view). *)
Context (obs : nat -> option view).

(** [while self.tmp_data is None: time.sleep(0.001)], starting at check [k];
    [fuel] bounds the number of sleeps this run observes. *)
Fixpoint wait_loop (fuel k : nat) : list fv_event * option view :=
  match obs k with
  | Some v => ([], Some v)
  | None =>
      match fuel with
      | O => ([], None)
      | S f => let '(evs, r) := wait_loop f (S k) in (Sleep 1 :: evs, r)
      end
  end.

Inductive outcome :=
  | Returned (v : view)
  | Raised (e : exn)
  | StillWaiting.

(** [Session._build_flow_view(script, view_size)]: its outcome, its steps and
    [flow_views] afterwards. *)
Definition build_flow_view (fuel : nat) (script : Script)
    (init_config : option (list (string * cfg))) (flow_views : gmap nat view)
    : outcome * list fv_event * gmap nat view :=
  match flow_view_config_of init_config with
  | inl e => (Raised e, [], flow_views)
  | inr _ =>
      let '(waits, r) := wait_loop fuel 0 in
      let pre := [SetTmpDataNone; EmitBuildFlowViewRequest] ++ waits in
      match r with
      | None => (StillWaiting, pre, flow_views)
      | Some v =>
          (Returned v,
           pre ++ [StoreFlowView (script_id script) v;
                   EmitScriptFlowViewCreated (script_id script) v],
           <[script_id script := v]> flow_views)
      end
  end.

End SessionModel.

(** * Properties *)

(** ** shorten *)

Example shorten_ex1 :
  shorten (lit "abcdefghijklmnopqrst") 15 false = lit "abcd . . . qrst".
Proof. reflexivity. Qed.

Example longest_ex :
  get_longest_line (lit ("abcdef" ++ String newline "xy")) = lit "xy".
Proof. reflexivity. Qed.

Lemma shorten_long (s : pystr) (max_chars : Z) (line_break : bool) :
  max_chars < py_len s ->
  shorten s max_chars line_break =
    py_slice_to s (py_round_half (max_chars - py_len (shorten_insert line_break)))
    ++ shorten_insert line_break
    ++ py_slice_from s (py_round_half (2 * py_len s
                                      - (max_chars - py_len (shorten_insert line_break)))).
Proof.
  intros H. unfold shorten. destruct (Z.ltb_spec max_chars (py_len s)); [reflexivity | lia].
Qed.

(** Claim C1 (code bug): the docstring of [shorten] promises that the result
    "does not exceed a given max length", but both halves are rounded with
    Python's [round] independently. On the twelve-character string
    ["abcdefghijkl"] with budget 10, [round(1.5) = 2] characters are kept on
    the left and [12 - round(12 - 1.5) = 2] on the right, so the result
    ["ab . . . kl"] has eleven characters. *)
Lemma shorten_exceeds_budget :
  10 < py_len (lit "abcdefghijkl") /\
  shorten (lit "abcdefghijkl") 10 false = lit "ab . . . kl" /\
  py_len (shorten (lit "abcdefghijkl") 10 false) = 11.
Proof. split; [vm_compute; reflexivity | split; reflexivity]. Qed.

(** Claim C2: for [len(s) > max_chars], [shorten(s, max_chars, line_break)] is
    a prefix of [s], then the marker [' . . . '] (wrapped in newlines when
    [line_break] is set), then a suffix of [s]. *)
Theorem shorten_prefix_marker_suffix (s : pystr) (max_chars : Z) (line_break : bool) :
  max_chars < py_len s ->
  exists left right,
    left `prefix_of` s /\ right `suffix_of` s /\
    shorten s max_chars line_break = left ++ shorten_insert line_break ++ right.
Proof.
  intros H. rewrite (shorten_long s max_chars line_break H).
  eexists _, _. split; [apply prefix_take | split; [apply suffix_drop | reflexivity]].
Qed.

Lemma shorten_prefix_marker_suffix_witness :
  10 < py_len (lit "abcdefghijkl") /\
  exists left right,
    left `prefix_of` (lit "abcdefghijkl") /\ right `suffix_of` (lit "abcdefghijkl") /\
    shorten (lit "abcdefghijkl") 10 true = left ++ shorten_insert true ++ right.
Proof.
  split; [vm_compute; reflexivity |].
  apply (shorten_prefix_marker_suffix (lit "abcdefghijkl") 10 true).
  vm_compute; reflexivity.
Defined.

(** Claim C9: for [len(s) <= max_chars], [shorten(s, max_chars, line_break)]
    returns [s] unchanged. *)
Theorem shorten_short_identity (s : pystr) (max_chars : Z) (line_break : bool) :
  py_len s <= max_chars -> shorten s max_chars line_break = s.
Proof.
  intros H. unfold shorten. destruct (Z.ltb_spec max_chars (py_len s)); [lia | reflexivity].
Qed.

Lemma shorten_short_identity_witness :
  py_len (lit "abc") <= 5 /\ shorten (lit "abc") 5 false = lit "abc".
Proof.
  split; [vm_compute; discriminate |].
  apply (shorten_short_identity (lit "abc") 5 false). vm_compute; discriminate.
Defined.

(** ** get_longest_line *)

Lemma split_lines_not_nil (s : pystr) : split_lines s <> [].
Proof.
  induction s as [|c s IH]; simpl; [discriminate |].
  destruct (Ascii.eqb c newline); [discriminate |].
  destruct (split_lines s); discriminate.
Qed.

Lemma split_lines_no_newline (s : pystr) :
  newline ∉ s -> split_lines s = [s].
Proof.
  induction s as [|c s IH]; intros Hn; simpl; [reflexivity |].
  apply not_elem_of_cons in Hn as [Hc1 Hn].
  destruct (Ascii.eqb_spec c newline) as [-> | Hc]; [congruence |].
  rewrite IH by exact Hn. reflexivity.
Qed.

Lemma split_lines_newline_length (a b : pystr) :
  (2 <= length (split_lines (a ++ newline :: b)))%nat.
Proof.
  induction a as [|c a IH]; simpl.
  - rewrite ?Ascii.eqb_refl. simpl.
    pose proof (split_lines_not_nil b). destruct (split_lines b); simpl; [done | lia].
  - destruct (Ascii.eqb c newline); simpl; [lia |].
    destruct (split_lines (a ++ newline :: b)); simpl in *; lia.
Qed.

Lemma split_lines_newline_last (a b : pystr) :
  last (split_lines (a ++ newline :: b)) = last (split_lines b).
Proof.
  induction a as [|c a IH]; simpl.
  - rewrite ?Ascii.eqb_refl, last_cons.
    destruct (last (split_lines b)) eqn:E; [reflexivity |].
    apply last_None in E. exfalso. exact (split_lines_not_nil b E).
  - pose proof (split_lines_newline_length a b) as Hlen.
    destruct (Ascii.eqb c newline).
    + rewrite last_cons, IH.
      destruct (last (split_lines b)) eqn:E; [reflexivity |].
      apply last_None in E. exfalso. exact (split_lines_not_nil b E).
    + destruct (split_lines (a ++ newline :: b)) as [|l [|l' ls]]; simpl in *; try lia.
      exact IH.
Qed.

Lemma longest_loop_snd (lines : list pystr) (found line : pystr) :
  snd (longest_loop lines found line) = default line (last lines).
Proof.
  revert found line. induction lines as [|l lines IH]; intros found line; simpl;
    [reflexivity |].
  rewrite IH, last_cons. destruct (last lines); reflexivity.
Qed.

Lemma last_map_list {A B} (f : A -> B) (l : list A) :
  last (map f l) = option_map f (last l).
Proof.
  induction l as [|x l IH]; [reflexivity |].
  simpl map. rewrite !last_cons, IH. destruct (last l); reflexivity.
Qed.

Lemma remove_newlines_id (line : pystr) : newline ∉ line -> remove_newlines line = line.
Proof.
  induction line as [|c line IH]; intros Hn; [reflexivity |].
  apply not_elem_of_cons in Hn as [Hc1 Hn]. unfold remove_newlines in *; simpl.
  destruct (Ascii.eqb_spec c newline) as [-> | Hc]; [congruence |].
  simpl. rewrite IH by exact Hn. reflexivity.
Qed.

Lemma split_lines_last_no_newline (s : pystr) :
  newline ∉ s -> get_longest_line s = s.
Proof.
  intros Hn. unfold get_longest_line.
  rewrite longest_loop_snd, split_lines_no_newline by exact Hn. simpl.
  apply remove_newlines_id, Hn.
Qed.

(** Claim C10: [get_longest_line(s)] returns the last line of [s]: the whole
    of [s] when it has no newline, otherwise the part after its final
    newline. It is not always the longest line: on ["abcdef\nxy"] it returns
    ["xy"] although the line ["abcdef"] is longer. *)
Theorem get_longest_line_returns_last_line :
  (forall s : pystr,
     ((newline ∉ s) /\ get_longest_line s = s) \/
     (exists pre, s = pre ++ newline :: get_longest_line s /\
                  newline ∉ get_longest_line s)) /\
  (exists (s longest : pystr),
     longest ∈ split_lines s /\ last (split_lines s) <> Some longest /\
     (length (get_longest_line s) < length longest)%nat).
Proof.
  split.
  - intros s. destruct (decide (newline ∈ s)) as [Hin | Hn].
    + right. destruct (list_elem_of_split_r s newline Hin) as (pre & L & -> & HL).
      assert (Hg : get_longest_line (pre ++ newline :: L) = L).
      { unfold get_longest_line.
        rewrite longest_loop_snd, last_map_list, split_lines_newline_last,
          split_lines_no_newline by exact HL.
        simpl. apply remove_newlines_id, HL. }
      rewrite Hg. exists pre. split; [reflexivity | exact HL].
    + left. split; [exact Hn | apply split_lines_last_no_newline, Hn].
  - exists (lit ("abcdef" ++ String newline "xy")), (lit "abcdef").
    split; [vm_compute; left | split; [vm_compute; discriminate | vm_compute; lia]].
Qed.

(** ** IDCtr.set_count *)

(** Claim C4: [set_count(cnt)] raises an exception exactly when [cnt] is
    below the current counter, leaves the counter unchanged in that case,
    and otherwise sets the counter to [cnt]. *)
Theorem IDCtr_set_count_spec (c : IDCtr) (cnt : Z) :
  ((exists e, fst (IDCtr_set_count c cnt) = inl e) <-> cnt < ctr c) /\
  (cnt < ctr c -> snd (IDCtr_set_count c cnt) = c) /\
  (ctr c <= cnt -> IDCtr_set_count c cnt = (inr tt, mkIDCtr cnt)).
Proof.
  unfold IDCtr_set_count. destruct (Z.ltb_spec cnt (ctr c)) as [H | H]; simpl.
  - split; [split; [intros _; exact H | intros _; eexists; reflexivity] |].
    split; [reflexivity | intros; lia].
  - split; [split; [intros [e He]; discriminate He | intros; lia] |].
    split; [intros; lia | reflexivity].
Qed.

(** ** VarsManager.set_var *)

Lemma var_index_from_Some (vs : list Var) (name : string) (k i : nat) :
  var_index_from vs name k = Some i ->
  (k <= i)%nat /\ exists var, vs !! (i - k)%nat = Some var /\ var_name var = name.
Proof.
  revert k. induction vs as [|v vs IH]; intros k H; simpl in H; [discriminate |].
  destruct (String.eqb_spec (var_name v) name) as [Hn | Hn].
  - injection H as <-. split; [lia |]. exists v. rewrite Nat.sub_diag. auto.
  - destruct (IH (S k) H) as [Hle [var [Hl Hv]]]. split; [lia |].
    exists var. replace (i - k)%nat with (S (i - S k)) by lia. auto.
Qed.

Lemma var_index_from_names (vs1 vs2 : list Var) (name : string) (k : nat) :
  map var_name vs1 = map var_name vs2 ->
  var_index_from vs1 name k = var_index_from vs2 name k.
Proof.
  revert vs2 k. induction vs1 as [|v1 vs1 IH]; intros [|v2 vs2] k H;
    simpl in H; try discriminate; [reflexivity |].
  injection H as Hv Hvs. simpl. rewrite Hv, (IH vs2 (S k) Hvs). reflexivity.
Qed.

Lemma names_set_val (vs : list Var) (i : nat) (var : Var) (v : Z) :
  vs !! i = Some var ->
  map var_name (<[i := mkVariable (var_name var) v]> vs) = map var_name vs.
Proof.
  revert i. induction vs as [|x vs IH]; intros [|i] H; simpl in H; try discriminate.
  - injection H as ->. reflexivity.
  - simpl. rewrite (IH i H). reflexivity.
Qed.

(** The wrapper returns what the core returns, and adds exactly one
    [var_val_changed] notification after the core call when that is true. *)
Lemma set_var_run (name : string) (v : Z) (st : World) :
  exists b vs',
    RC_VarsManager_set_var_impl name v st =
      (inr b, mkWorld vs' (trace st ++ [CoreCall RC_VarsManager_set_var])) /\
    Wrappers.VarsManager_set_var name v st =
      (inr b, mkWorld vs' (trace st ++ [CoreCall RC_VarsManager_set_var] ++
                           (if b then [Emit var_val_changed] else []))).
Proof.
  destruct st as [vs tr].
  unfold Wrappers.VarsManager_set_var, RC_VarsManager_set_var_impl,
    get_var_index_from_name, get_variables, bind, ret; simpl.
  destruct (var_index_from vs name 0) as [i|] eqn:Ei.
  - destruct (var_index_from_Some vs name 0 i Ei) as [_ [var [Hl _]]].
    rewrite Nat.sub_0_r in Hl. rewrite Hl.
    unfold put_variables, record_event; simpl.
    rewrite (var_index_from_names _ vs name 0 (names_set_val vs i var v Hl)), Ei.
    unfold variables_at, get_variables, bind; simpl.
    rewrite list_lookup_insert_eq by (eapply lookup_lt_Some; exact Hl).
    unfold emit, record_event, ret; simpl.
    eexists true, _. split; [reflexivity |]. rewrite <- app_assoc. reflexivity.
  - unfold record_event; simpl.
    eexists false, _. split; reflexivity.
Qed.

(** Claim C7: [VarsManager.set_var(name, val)] returns exactly the boolean
    returned by the wrapped core [set_var], and emits [var_val_changed]
    (once, after the core call) if and only if that boolean is true. *)
Theorem VarsManager_set_var_result (name : string) (v : Z) (st : World) :
  exists b st0,
    RC_VarsManager_set_var_impl name v st = (inr b, st0) /\
    Wrappers.VarsManager_set_var name v st =
      (inr b, mkWorld (variables st0)
                (trace st0 ++ (if b then [Emit var_val_changed] else []))).
Proof.
  destruct (set_var_run name v st) as (b & vs' & Hcore & Hwrap).
  exists b, (mkWorld vs' (trace st ++ [CoreCall RC_VarsManager_set_var])).
  split; [exact Hcore |]. rewrite Hwrap. simpl. rewrite <- app_assoc. reflexivity.
Qed.

(** ** Order of core call and notification *)

(** Claim C3 (as stated, refuted): in every listed wrapper the wrapped core
    call completes before any signal is emitted. [DataConnection.activate]
    emits [activated] first. *)
Lemma core_call_before_emit_counterexample :
  ~ (forall (w : wrapper) (st : World),
       exists pre post,
         trace (snd (run_wrapper w st)) =
           trace st ++ pre ++ CoreCall (wrapped_method w) :: post /\
         Forall (fun e => is_emit e = false) pre).
Proof.
  intros H. destruct (H W_DataConnection_activate (mkWorld [] [])) as (pre & post & Ht & Hpre).
  simpl in Ht. destruct pre as [|e pre]; simpl in Ht; [discriminate |].
  injection Ht as He0 _. subst e. inversion Hpre as [|? ? He _]. discriminate He.
Qed.

(** Claim C3 (amended): every listed wrapper except [DataConnection.activate]
    first lets the wrapped core call complete and only then emits its
    notification (nothing but notifications follow the core call);
    [DataConnection.activate] emits [activated] before calling the core's
    [activate]. *)
Theorem core_call_before_emit (st : World) :
  (forall w : wrapper, w <> W_DataConnection_activate ->
     exists post,
       trace (snd (run_wrapper w st)) =
         trace st ++ CoreCall (wrapped_method w) :: post /\
       Forall (fun e => is_emit e = true) post) /\
  trace (snd (run_wrapper W_DataConnection_activate st)) =
    trace st ++ [Emit activated; CoreCall RC_DataConnection_activate].
Proof.
  split.
  - intros w Hw. destruct w; try (exfalso; apply Hw; reflexivity);
      try (eexists; split; [simpl; rewrite <- app_assoc; reflexivity
                           | repeat constructor]).
    simpl. destruct (set_var_run name v st) as (b & vs' & _ & Hwrap).
    unfold bind at 1. rewrite Hwrap. simpl.
    exists (if b then [Emit var_val_changed] else []).
    split; [reflexivity | destruct b; repeat constructor].
  - simpl. rewrite <- app_assoc. reflexivity.
Qed.

(** ** Session.__init__ *)

(** Claim C6: when the core session is initialised, [CLASSES['node base']]
    is the caller's [node_class] if one is given and [Node] otherwise,
    [CLASSES['data conn']] likewise with [DataConnection], and
    [CLASSES['exec conn']] is the caller's [exec_conn_class] if one is given
    and its previous entry otherwise; no registry write follows the core
    initialisation. *)
Theorem Session_init_registry (CLASSES : gmap string pyclass)
    (data_conn_class data_conn_item_class exec_conn_class exec_conn_item_class
     node_class : option pyclass) :
  exists pre registry post,
    fst (Session_init CLASSES data_conn_class data_conn_item_class exec_conn_class
           exec_conn_item_class node_class) = pre ++ CoreSessionInit registry :: post /\
    Forall (fun e => is_assign e = false) post /\
    registry !! "node base" = Some (match node_class with Some c => c | None => C_Node end) /\
    registry !! "data conn" =
      Some (match data_conn_class with Some c => c | None => C_DataConnection end) /\
    registry !! "exec conn" =
      match exec_conn_class with Some c => Some c | None => CLASSES !! "exec conn" end.
Proof.
  unfold Session_init, registry_assign.
  destruct exec_conn_class as [c|]; simpl;
    [eexists [_; _; _; _; _; _; _; _], _, _ | eexists [_; _; _; _; _; _; _], _, _];
    (split; [reflexivity | split; [repeat constructor |]]);
    destruct node_class, data_conn_class; simplify_map_eq; auto.
Qed.

(** ** Session.serialize *)

Lemma get_script_from_title_unique (all_scripts : list Script) (s : Script) :
  NoDup (map title all_scripts) -> s ∈ all_scripts ->
  get_script_from_title all_scripts (title s) = Some s.
Proof.
  induction all_scripts as [|x rest IH]; intros Hnd Hin; [by apply not_elem_of_nil in Hin |].
  simpl in Hnd. apply NoDup_cons in Hnd as [Hx Hnd]. simpl.
  apply elem_of_cons in Hin as [-> | Hin].
  - rewrite String.eqb_refl. reflexivity.
  - destruct (String.eqb_spec (title x) (title s)) as [He | He].
    + exfalso. apply Hx. rewrite He. apply list_elem_of_fmap_2, Hin.
    + apply IH; assumption.
Qed.

Section SerializeProofs.

Context {cfg view : Type} (cfg_name : cfg -> option string)
  (generate_config_data : view -> cfg -> cfg)
  (all_scripts : list Script) (flow_views : gmap nat view).

(** [c'] is [c] completed by the flow view of the script titled [c]'s name. *)
Definition completed_by_view (c c' : cfg) : Prop :=
  exists t s v, cfg_name c = Some t /\ s ∈ all_scripts /\ title s = t /\
    flow_views !! script_id s = Some v /\ c' = generate_config_data v c.

(** Every config names a script of the session that has a flow view. *)
Definition has_view (c : cfg) : Prop :=
  exists t s v, cfg_name c = Some t /\ s ∈ all_scripts /\ title s = t /\
    flow_views !! script_id s = Some v.

Lemma complete_all_spec (cs : list cfg) :
  NoDup (map title all_scripts) -> Forall has_view cs ->
  exists cs', complete_all cfg_name generate_config_data all_scripts flow_views cs = inr cs' /\
    Forall2 completed_by_view cs cs'.
Proof.
  intros Hnd. induction cs as [|c cs IH]; intros Hall; [exists []; split; constructor |].
  apply Forall_cons in Hall as [(t & s & v & Hn & Hs & Ht & Hv) Hall].
  destruct (IH Hall) as (cs' & Hc & H2).
  exists (generate_config_data v c :: cs'). simpl. unfold complete_script_cfg.
  rewrite Hn, <- Ht, (get_script_from_title_unique all_scripts s Hnd Hs), Hv, Hc.
  split; [reflexivity |]. constructor; [| exact H2].
  exists t, s, v. auto.
Qed.

End SerializeProofs.

(** Claim C5: when script titles are unique and every config of the core's
    serialization names a script that has a flow view, [Session.serialize]
    returns a dictionary with exactly the keys ['function scripts'] and
    ['scripts']; each holds, in the core's order, the core's configs, each
    completed by the flow view of the script with that title. *)
Theorem Session_serialize_spec {cfg view : Type} (cfg_name : cfg -> option string)
    (generate_config_data : view -> cfg -> cfg) (data : CoreData)
    (all_scripts : list Script) (flow_views : gmap nat view) :
  NoDup (map title all_scripts) ->
  Forall (has_view cfg_name all_scripts flow_views)
    (function_scripts data ++ scripts data) ->
  exists fs ss,
    Session_serialize cfg_name generate_config_data data all_scripts flow_views =
      inr [("function scripts", fs); ("scripts", ss)] /\
    Forall2 (completed_by_view cfg_name generate_config_data all_scripts flow_views)
      (function_scripts data) fs /\
    Forall2 (completed_by_view cfg_name generate_config_data all_scripts flow_views)
      (scripts data) ss.
Proof.
  intros Hnd Hall. apply Forall_app in Hall as [Hf Hs].
  destruct (complete_all_spec cfg_name generate_config_data all_scripts flow_views
              _ Hnd Hf) as (fs & Efs & Hfs).
  destruct (complete_all_spec cfg_name generate_config_data all_scripts flow_views
              _ Hnd Hs) as (ss & Ess & Hss).
  exists fs, ss. unfold Session_serialize. rewrite Efs, Ess. auto.
Qed.

Lemma Session_serialize_spec_witness :
  let scripts0 := [mkScript 0%nat "main"; mkScript 1%nat "helper"] in
  let views0 : gmap nat string := <[0%nat := ":layout0"]> (<[1%nat := ":layout1"]> ∅) in
  let data0 := mkCoreData ["helper"] ["main"] in
  NoDup (map title scripts0) /\
  Forall (has_view (@Some string) scripts0 views0)
    (function_scripts data0 ++ scripts data0) /\
  exists fs ss,
    Session_serialize (@Some string) (fun v c => String.append c v) data0 scripts0 views0 =
      inr [("function scripts", fs); ("scripts", ss)] /\
    Forall2 (completed_by_view (@Some string) (fun v c => String.append c v) scripts0 views0)
      (function_scripts data0) fs /\
    Forall2 (completed_by_view (@Some string) (fun v c => String.append c v) scripts0 views0)
      (scripts data0) ss.
Proof.
  intros scripts0 views0 data0.
  assert (Hnd : NoDup (map title scripts0)) by (repeat constructor; set_solver).
  assert (Hv : Forall (has_view (@Some string) scripts0 views0)
                 (function_scripts data0 ++ scripts data0)).
  { repeat constructor.
    - exists "helper", (mkScript 1%nat "helper"), ":layout1".
      repeat split; first [reflexivity | set_solver].
    - exists "main", (mkScript 0%nat "main"), ":layout0".
      repeat split; first [reflexivity | set_solver]. }
  split; [exact Hnd | split; [exact Hv |]].
  exact (Session_serialize_spec (@Some string) (fun v c => String.append c v) data0
           scripts0 views0 Hnd Hv).
Defined.

(** ** Session._build_flow_view *)

Lemma wait_loop_spec {view : Type} (obs : nat -> option view) (fuel k : nat) :
  match wait_loop obs fuel k with
  | (evs, Some v) =>
      exists n, evs = repeat (Sleep 1) n /\ obs (k + n)%nat = Some v /\
        (forall j, (j < n)%nat -> obs (k + j)%nat = None)
  | (evs, None) =>
      evs = repeat (Sleep 1) fuel /\ forall j, (j <= fuel)%nat -> obs (k + j)%nat = None
  end.
Proof.
  revert k. induction fuel as [|f IH]; intros k; simpl.
  - destruct (obs k) as [v|] eqn:E.
    + exists 0%nat. rewrite Nat.add_0_r. split; [reflexivity | split; [exact E | lia]].
    + split; [reflexivity |]. intros j Hj. replace j with 0%nat by lia.
      rewrite Nat.add_0_r. exact E.
  - destruct (obs k) as [v|] eqn:E.
    + exists 0%nat. rewrite Nat.add_0_r. split; [reflexivity | split; [exact E | lia]].
    + specialize (IH (S k)). destruct (wait_loop obs f (S k)) as [evs [v|]].
      * destruct IH as (n & -> & Hv & Hb). exists (S n).
        split; [reflexivity |]. split; [rewrite <- Hv; f_equal; lia |].
        intros [|j] Hj; [rewrite Nat.add_0_r; exact E |].
        replace (k + S j)%nat with (S k + j)%nat by lia. apply Hb. lia.
      * destruct IH as [-> Hb]. split; [reflexivity |].
        intros [|j] Hj; [rewrite Nat.add_0_r; exact E |].
        replace (k + S j)%nat with (S k + j)%nat by lia. apply Hb. lia.
Qed.

(** Claim C8: [_build_flow_view] resets [tmp_data] to [None], emits the
    construction request, then sleeps 1 ms at a time, re-reading [tmp_data]
    after each sleep, until the owning thread has written a view; only then
    does it store the view in [flow_views] and emit
    [script_flow_view_created]. The loop has no other exit: as long as
    [tmp_data] stays [None] it keeps sleeping, for any number of steps (no
    timeout, no cancellation). (A config without ['flow view'] and ['flow']
    raises [KeyError] before any of these steps.) *)
Theorem build_flow_view_busy_wait {cfg view : Type} (obs : nat -> option view)
    (fuel : nat) (script : Script) (init_config : option (list (string * cfg)))
    (flow_views : gmap nat view) :
  match build_flow_view obs fuel script init_config flow_views with
  | (Returned v, tr, flow_views') =>
      exists n,
        tr = [SetTmpDataNone; EmitBuildFlowViewRequest] ++ repeat (Sleep 1) n ++
             [StoreFlowView (script_id script) v;
              EmitScriptFlowViewCreated (script_id script) v] /\
        obs n = Some v /\ (forall k, (k < n)%nat -> obs k = None) /\
        flow_views' = <[script_id script := v]> flow_views
  | (StillWaiting, tr, flow_views') =>
      tr = [SetTmpDataNone; EmitBuildFlowViewRequest] ++ repeat (Sleep 1) fuel /\
      (forall k, (k <= fuel)%nat -> obs k = None) /\ flow_views' = flow_views
  | (Raised e, tr, flow_views') =>
      e = KeyError /\ tr = [] /\ flow_views' = flow_views /\
      flow_view_config_of init_config = inl KeyError
  end /\
  ((forall k, obs k = None) ->
   (exists c, flow_view_config_of init_config = inr c) ->
   fst (fst (build_flow_view obs fuel script init_config flow_views)) = StillWaiting).
Proof.
  unfold build_flow_view.
  assert (Hcfg : forall e, flow_view_config_of init_config = inl e -> e = KeyError).
  { unfold flow_view_config_of. intros e.
    destruct init_config as [d|]; [| discriminate].
    destruct (list_assoc "flow view" d); [discriminate |].
    destruct (list_assoc "flow" d); [discriminate | congruence]. }
  pose proof (wait_loop_spec obs fuel 0) as Hw.
  destruct (flow_view_config_of init_config) as [e|c] eqn:Ec.
  - split; [| intros _ [c Hc]; discriminate Hc].
    pose proof (Hcfg e eq_refl) as ->. auto.
  - destruct (wait_loop obs fuel 0) as [evs [v|]].
    + destruct Hw as (n & -> & Hv & Hb). split.
      * exists n. split; [rewrite <- app_assoc; reflexivity |].
        split; [exact Hv |]. split; [exact Hb | reflexivity].
      * intros Hnone _. simpl in Hv. rewrite Hnone in Hv. discriminate Hv.
    + destruct Hw as [-> Hb]. split; [| intros; reflexivity].
      split; [reflexivity |]. split; [exact Hb | reflexivity].
Qed.

(** * Further properties of the code *)

(** ** IDCtr.count and Base.__init__ *)

(** [n] successive [count()] calls return the next [n] integers after the
    counter; on a fresh counter ("first time is 0") they are [0 .. n-1]. *)
Theorem count_n_consecutive (c : IDCtr) (n : nat) :
  count_n c n = (map (fun k => ctr c + Z.of_nat k) (seq 1 n), mkIDCtr (ctr c + Z.of_nat n)) /\
  fst (count_n IDCtr_init n) = map Z.of_nat (seq 0 n).
Proof.
  assert (Hgen : forall c n, count_n c n =
    (map (fun k => ctr c + Z.of_nat k) (seq 1 n), mkIDCtr (ctr c + Z.of_nat n))).
  { intros c0 n0. revert c0. induction n0 as [|n0 IH]; intros c0.
    - simpl. destruct c0. simpl. rewrite Z.add_0_r. reflexivity.
    - simpl. rewrite IH. simpl. f_equal.
      + f_equal; try lia. rewrite <- (seq_shift n0 1), map_map.
        apply map_ext. intros; simpl; lia.
      + f_equal. lia. }
  split; [apply Hgen |]. rewrite Hgen. simpl. rewrite <- seq_shift, map_map.
  apply map_ext_in. intros k _. lia.
Qed.

(** Whatever [count()] and [set_count] calls are made on a counter (an
    illegal [set_count] being caught), the IDs [count()] returns are
    strictly increasing and all above the initial counter, and the counter
    never decreases. *)
Theorem run_ctr_ops_increasing (c : IDCtr) (ops : list ctr_op) :
  StronglySorted Z.lt (fst (run_ctr_ops c ops)) /\
  Forall (fun i => ctr c < i) (fst (run_ctr_ops c ops)) /\
  ctr c <= ctr (snd (run_ctr_ops c ops)).
Proof.
  revert c. induction ops as [|op ops IH]; intros c.
  - simpl. split; [constructor | split; [constructor | lia]].
  - destruct op as [|cnt]; simpl.
    + specialize (IH (mkIDCtr (ctr c + 1))).
      destruct (run_ctr_ops (mkIDCtr (ctr c + 1)) ops) as [ids c2]; simpl in *.
      destruct IH as (Hs & Hf & Hle).
      split; [constructor; [exact Hs | exact Hf] |].
      split; [constructor; [lia | rewrite Forall_forall in *; intros x Hx; specialize (Hf x Hx); lia] | lia].
    + unfold IDCtr_set_count. destruct (Z.ltb_spec cnt (ctr c)) as [Hlt | Hge]; simpl.
      * apply IH.
      * specialize (IH (mkIDCtr cnt)). simpl in IH. destruct IH as (Hs & Hf & Hle).
        split; [exact Hs |]. split; [rewrite Forall_forall in *; intros x Hx; specialize (Hf x Hx); lia | lia].
Qed.

(** Objects constructed one after another get consecutive [GLOBAL_ID]s after
    the global counter. Without a custom counter their [ID] attribute is left
    as it was. With one, every object ends up with an ID: a preset ID is
    kept, and the objects without one get the next IDs of the custom
    counter, consecutively and in order of construction, which is the only
    way the custom counter advances. *)
Theorem Base_init_seq_ids (g : IDCtr) (id_ctr : option IDCtr)
    (presets : list (option (option Z))) :
  let '(objs, g', id_ctr') := Base_init_seq g id_ctr presets in
  map GLOBAL_ID objs = map (fun k => ctr g + Z.of_nat k) (seq 1 (length presets)) /\
  ctr g' = ctr g + Z.of_nat (length presets) /\
  (id_ctr = None -> map ID objs = presets /\ id_ctr' = None) /\
  (forall c, id_ctr = Some c ->
     let k := length (List.filter (fun p => negb (has_ID p)) presets) in
     Forall (fun o => has_ID (ID o) = true) objs /\
     Forall2 (fun p o => has_ID p = true -> ID o = p) presets objs /\
     map (fun po => ID (snd po))
       (List.filter (fun po => negb (has_ID (fst po))) (combine presets objs)) =
       map (fun j => Some (Some (ctr c + Z.of_nat j))) (seq 1 k) /\
     id_ctr' = Some (mkIDCtr (ctr c + Z.of_nat k))).
Proof.
  revert g id_ctr. induction presets as [|p ps IH]; intros g id_ctr.
  - simpl. split; [reflexivity | split; [lia | split]].
    + intros ->. auto.
    + intros c ->. split; [constructor | split; [constructor |]].
      split; [reflexivity |]. destruct c. simpl. rewrite Z.add_0_r. reflexivity.
  - simpl Base_init_seq. unfold Base_init, IDCtr_count. simpl.
    destruct id_ctr as [ic|].
    + destruct (has_ID p) eqn:Hp.
      * specialize (IH (mkIDCtr (ctr g + 1)) (Some ic)).
        destruct (Base_init_seq (mkIDCtr (ctr g + 1)) (Some ic) ps) as [[os g2] ic2].
        destruct IH as (Hg & Hc & _ & Hic). simpl in Hg, Hc.
        split; [| split; [simpl length; lia | split; [discriminate |]]].
        { simpl. rewrite Hg, <- (seq_shift _ 1), map_map. f_equal; try lia.
          apply map_ext. intros; lia. }
        intros c Hceq. injection Hceq as <-.
        destruct (Hic ic eq_refl) as (Hall & H2 & Hseq & Hfin).
        simpl. rewrite ?Hp. simpl.
        split; [constructor; [exact Hp | exact Hall] |].
        split; [constructor; [intros _; reflexivity | exact H2] |].
        simpl. split; [exact Hseq | exact Hfin].
      * specialize (IH (mkIDCtr (ctr g + 1)) (Some (mkIDCtr (ctr ic + 1)))).
        destruct (Base_init_seq (mkIDCtr (ctr g + 1)) (Some (mkIDCtr (ctr ic + 1))) ps)
          as [[os g2] ic2].
        destruct IH as (Hg & Hc & _ & Hic). simpl in Hg, Hc.
        split; [| split; [simpl length; lia | split; [discriminate |]]].
        { simpl. rewrite Hg, <- (seq_shift _ 1), map_map. f_equal; try lia.
          apply map_ext. intros; lia. }
        intros c Hceq. injection Hceq as <-.
        destruct (Hic _ eq_refl) as (Hall & H2 & Hseq & Hfin). simpl in Hseq, Hfin.
        simpl. rewrite ?Hp. simpl.
        split; [constructor; [reflexivity | exact Hall] |].
        split; [constructor; [intros H; congruence | exact H2] |].
        split.
        { simpl. rewrite Hseq, <- (seq_shift _ 1), map_map. f_equal; try (do 2 f_equal; lia).
          apply map_ext. intros; do 2 f_equal; lia. }
        rewrite Hfin. do 2 f_equal. simpl length. lia.
    + specialize (IH (mkIDCtr (ctr g + 1)) None).
      destruct (Base_init_seq (mkIDCtr (ctr g + 1)) None ps) as [[os g2] ic2].
      destruct IH as (Hg & Hc & Hnone & _). simpl in Hg, Hc.
      split; [| split; [simpl length; lia | split]].
      * simpl. rewrite Hg, <- (seq_shift _ 1), map_map. f_equal; try lia.
        apply map_ext. intros; lia.
      * intros _. destruct (Hnone eq_refl) as [Hm ->]. simpl. rewrite Hm. auto.
      * intros c Hc'. discriminate Hc'.
Qed.

(** ** shorten: length and balance when the budget fits the marker *)

Lemma py_round_half_bounds (n : Z) :
  n - 1 <= 2 * py_round_half n <= n + 1 /\
  (Z.even n = true -> 2 * py_round_half n = n).
Proof.
  unfold py_round_half.
  pose proof (Z.div_mod n 2 ltac:(lia)) as Hdm.
  pose proof (Z.mod_pos_bound n 2 ltac:(lia)) as Hb.
  pose proof (Zeven_mod n) as He.
  destruct (Z.even n) eqn:E.
  - symmetry in He. apply Z.eqb_eq in He. split; [lia | intros _; lia].
  - symmetry in He. apply Z.eqb_neq in He.
    destruct (Z.even (n / 2)); split; try lia; intros H; discriminate H.
Qed.

Lemma py_slice_index_in_range (s : pystr) (k : Z) :
  0 <= k <= py_len s -> py_slice_index s k = Z.to_nat k.
Proof.
  intros Hk. unfold py_slice_index.
  destruct (Z.ltb_spec k 0); [lia |]. f_equal. lia.
Qed.

(** With [insert_length <= max_chars < len(s)], both slice bounds of
    [shorten] lie within [s]: the result is [s[:a] + insert + s[b:]] with the
    two rounded bounds [a] and [b], and [0 <= a, b <= len(s)]. *)
Lemma shorten_parts (s : pystr) (max_chars : Z) (line_break : bool) :
  py_len (shorten_insert line_break) <= max_chars < py_len s ->
  let x := max_chars - py_len (shorten_insert line_break) in
  let a := py_round_half x in
  let b := py_round_half (2 * py_len s - x) in
  0 <= a <= py_len s /\ 0 <= b <= py_len s /\
  shorten s max_chars line_break =
    take (Z.to_nat a) s ++ shorten_insert line_break ++ drop (Z.to_nat b) s.
Proof.
  intros H x a b.
  assert (Hx : x = max_chars - py_len (shorten_insert line_break)) by reflexivity.
  assert (HL : 0 <= py_len (shorten_insert line_break)) by (unfold py_len; lia).
  destruct (py_round_half_bounds x) as [Ha _].
  destruct (py_round_half_bounds (2 * py_len s - x)) as [Hb _].
  fold a in Ha. fold b in Hb.
  assert (Ha' : 0 <= a <= py_len s) by lia.
  assert (Hb' : 0 <= b <= py_len s) by lia.
  split; [exact Ha' | split; [exact Hb' |]].
  rewrite shorten_long by lia. unfold py_slice_to, py_slice_from.
  rewrite !py_slice_index_in_range by assumption. reflexivity.
Qed.

(** [shorten] with a budget at least the marker's length, on a longer
    string: the result is within one character of the budget (the rounding
    of both halves can miss it by one either way). *)
Theorem shorten_length_within_one (s : pystr) (max_chars : Z) (line_break : bool) :
  py_len (shorten_insert line_break) <= max_chars < py_len s ->
  max_chars - 1 <= py_len (shorten s max_chars line_break) <= max_chars + 1.
Proof.
  intros H.
  destruct (shorten_parts s max_chars line_break H) as (Ha & Hb & ->).
  destruct (py_round_half_bounds (max_chars - py_len (shorten_insert line_break)))
    as [Ha2 _].
  destruct (py_round_half_bounds (2 * py_len s -
              (max_chars - py_len (shorten_insert line_break)))) as [Hb2 _].
  unfold py_len in *. rewrite !length_app, length_take, length_drop. lia.
Qed.

Lemma shorten_length_within_one_witness :
  py_len (shorten_insert false) <= 10 < py_len (lit "abcdefghijkl") /\
  10 - 1 <= py_len (shorten (lit "abcdefghijkl") 10 false) <= 10 + 1.
Proof.
  assert (H : py_len (shorten_insert false) <= 10 < py_len (lit "abcdefghijkl"))
    by (vm_compute; split; [discriminate | reflexivity]).
  split; [exact H | exact (shorten_length_within_one (lit "abcdefghijkl") 10 false H)].
Defined.

(** When [max_chars - insert_length] is even (so no rounding happens), the
    result of [shorten] has exactly [max_chars] characters. *)
Theorem shorten_length_exact_even (s : pystr) (max_chars : Z) (line_break : bool) :
  py_len (shorten_insert line_break) <= max_chars < py_len s ->
  Z.even (max_chars - py_len (shorten_insert line_break)) = true ->
  py_len (shorten s max_chars line_break) = max_chars.
Proof.
  intros H He.
  destruct (shorten_parts s max_chars line_break H) as (Ha & Hb & ->).
  destruct (py_round_half_bounds (max_chars - py_len (shorten_insert line_break)))
    as [_ Ha2].
  destruct (py_round_half_bounds (2 * py_len s -
              (max_chars - py_len (shorten_insert line_break)))) as [_ Hb2].
  specialize (Ha2 He).
  assert (He2 : Z.even (2 * py_len s - (max_chars - py_len (shorten_insert line_break)))
                = true).
  { rewrite Z.even_sub, Z.even_mul, He. reflexivity. }
  specialize (Hb2 He2).
  unfold py_len in *. rewrite !length_app, length_take, length_drop. lia.
Qed.

Lemma shorten_length_exact_even_witness :
  py_len (shorten_insert true) <= 15 < py_len (lit "abcdefghijklmnopqrst") /\
  Z.even (15 - py_len (shorten_insert true)) = true /\
  py_len (shorten (lit "abcdefghijklmnopqrst") 15 true) = 15.
Proof.
  assert (H : py_len (shorten_insert true) <= 15 < py_len (lit "abcdefghijklmnopqrst"))
    by (vm_compute; split; [discriminate | reflexivity]).
  assert (He : Z.even (15 - py_len (shorten_insert true)) = true) by reflexivity.
  split; [exact H | split; [exact He |]].
  exact (shorten_length_exact_even (lit "abcdefghijklmnopqrst") 15 true H He).
Defined.

(** [shorten] cuts in the middle: with a budget at least the marker's
    length, the kept prefix and the kept suffix differ in length by at most
    one character. *)
Theorem shorten_balanced_halves (s : pystr) (max_chars : Z) (line_break : bool) :
  py_len (shorten_insert line_break) <= max_chars < py_len s ->
  exists left right,
    left `prefix_of` s /\ right `suffix_of` s /\
    shorten s max_chars line_break = left ++ shorten_insert line_break ++ right /\
    py_len left - 1 <= py_len right <= py_len left + 1.
Proof.
  intros H.
  destruct (shorten_parts s max_chars line_break H) as (Ha & Hb & ->).
  destruct (py_round_half_bounds (max_chars - py_len (shorten_insert line_break)))
    as [Ha2 _].
  destruct (py_round_half_bounds (2 * py_len s -
              (max_chars - py_len (shorten_insert line_break)))) as [Hb2 _].
  eexists _, _. split; [apply prefix_take | split; [apply suffix_drop | split; [reflexivity |]]].
  unfold py_len in *. rewrite length_take, length_drop. lia.
Qed.

Lemma shorten_balanced_halves_witness :
  py_len (shorten_insert false) <= 10 < py_len (lit "abcdefghijklm") /\
  exists left right,
    left `prefix_of` (lit "abcdefghijklm") /\ right `suffix_of` (lit "abcdefghijklm") /\
    shorten (lit "abcdefghijklm") 10 false = left ++ shorten_insert false ++ right /\
    py_len left - 1 <= py_len right <= py_len left + 1.
Proof.
  assert (H : py_len (shorten_insert false) <= 10 < py_len (lit "abcdefghijklm"))
    by (vm_compute; split; [discriminate | reflexivity]).
  split; [exact H | exact (shorten_balanced_halves (lit "abcdefghijklm") 10 false H)].
Defined.

(** ** Session._get_script_from_title and the errors of Session.serialize *)

Lemma get_script_from_title_Some_split (all_scripts : list Script) (t : string) (s : Script) :
  get_script_from_title all_scripts t = Some s ->
  exists pre post, all_scripts = pre ++ s :: post /\ title s = t /\
    Forall (fun s' => title s' <> t) pre.
Proof.
  induction all_scripts as [|x rest IH]; simpl; [discriminate |].
  destruct (String.eqb_spec (title x) t) as [Ht | Ht].
  - intros Hs. injection Hs as <-. exists [], rest. auto.
  - intros Hs. destruct (IH Hs) as (pre & post & -> & Hts & Hpre).
    exists (x :: pre), post. split; [reflexivity | split; [exact Hts |]].
    constructor; assumption.
Qed.

Lemma get_script_from_title_None (all_scripts : list Script) (t : string) :
  get_script_from_title all_scripts t = None <->
  Forall (fun s => title s <> t) all_scripts.
Proof.
  induction all_scripts as [|x rest IH]; simpl; [split; [constructor | reflexivity] |].
  destruct (String.eqb_spec (title x) t) as [Ht | Ht].
  - split; [discriminate | intros Hf; inversion Hf; contradiction].
  - rewrite IH. split; [intros; constructor; assumption | intros Hf; inversion Hf; assumption].
Qed.

(** [_get_script_from_title(title)] returns the first script of
    [all_scripts()] with that title, and [None] exactly when no script has
    it. *)
Theorem get_script_from_title_first (all_scripts : list Script) (t : string) :
  (get_script_from_title all_scripts t = None <->
   Forall (fun s => title s <> t) all_scripts) /\
  (forall s, get_script_from_title all_scripts t = Some s ->
   exists pre post, all_scripts = pre ++ s :: post /\ title s = t /\
     Forall (fun s' => title s' <> t) pre).
Proof.
  split; [apply get_script_from_title_None | apply get_script_from_title_Some_split].
Qed.

Section SerializeErrors.

Context {cfg view : Type} (cfg_name : cfg -> option string)
  (generate_config_data : view -> cfg -> cfg)
  (all_scripts : list Script) (flow_views : gmap nat view).

Lemma complete_script_cfg_ok (c c' : cfg) :
  complete_script_cfg cfg_name generate_config_data all_scripts flow_views c = inr c' ->
  has_view cfg_name all_scripts flow_views c.
Proof.
  unfold complete_script_cfg.
  destruct (cfg_name c) as [t|] eqn:Hn; [| discriminate].
  destruct (get_script_from_title all_scripts t) as [s|] eqn:Hs; [| discriminate].
  destruct (flow_views !! script_id s) as [v|] eqn:Hv; [| discriminate].
  intros _. destruct (get_script_from_title_Some_split all_scripts t s Hs)
    as (pre & post & Hall & Ht & _).
  exists t, s, v. split; [exact Hn | split; [| split; [exact Ht | exact Hv]]].
  rewrite Hall. apply elem_of_app. right. apply elem_of_cons. left. reflexivity.
Qed.

Lemma complete_script_cfg_err (c : cfg) (e : exn) :
  complete_script_cfg cfg_name generate_config_data all_scripts flow_views c = inl e ->
  e = KeyError.
Proof.
  unfold complete_script_cfg.
  destruct (cfg_name c); [| congruence].
  destruct (get_script_from_title all_scripts s) as [s'|]; [| congruence].
  destruct (flow_views !! script_id s'); congruence.
Qed.

Lemma complete_all_result (cs : list cfg) :
  (forall e, complete_all cfg_name generate_config_data all_scripts flow_views cs = inl e ->
     e = KeyError) /\
  (forall cs', complete_all cfg_name generate_config_data all_scripts flow_views cs = inr cs' ->
     Forall (has_view cfg_name all_scripts flow_views) cs).
Proof.
  induction cs as [|c cs [IHe IHo]]; simpl.
  - split; [discriminate | intros; constructor].
  - destruct (complete_script_cfg cfg_name generate_config_data all_scripts flow_views c)
      as [e|c'] eqn:Hc.
    + split; [intros e' He'; injection He' as He''; subst e'; eapply complete_script_cfg_err; exact Hc
             | discriminate].
    + destruct (complete_all cfg_name generate_config_data all_scripts flow_views cs)
        as [e|cs'] eqn:Hcs.
      * split; [intros e' He'; injection He' as He''; subst e'; apply (IHe e eq_refl) | discriminate].
      * split; [discriminate |]. intros ? _.
        constructor; [eapply complete_script_cfg_ok; exact Hc | apply (IHo cs' eq_refl)].
Qed.

End SerializeErrors.

(** With unique script titles, [Session.serialize] raises exactly when some
    config of the core's serialization has no ['name'], names no script, or
    names a script without a flow view; the error it raises is always a
    [KeyError] (from [cfg['name']] or [self.flow_views[script]]). *)
Theorem Session_serialize_key_error {cfg view : Type} (cfg_name : cfg -> option string)
    (generate_config_data : view -> cfg -> cfg) (data : CoreData)
    (all_scripts : list Script) (flow_views : gmap nat view) :
  NoDup (map title all_scripts) ->
  (Session_serialize cfg_name generate_config_data data all_scripts flow_views = inl KeyError <->
   ~ Forall (has_view cfg_name all_scripts flow_views)
       (function_scripts data ++ scripts data)) /\
  (forall e, Session_serialize cfg_name generate_config_data data all_scripts flow_views = inl e ->
   e = KeyError).
Proof.
  intros Hnd.
  destruct (complete_all_result cfg_name generate_config_data all_scripts flow_views
              (function_scripts data)) as [Hfe Hfo].
  destruct (complete_all_result cfg_name generate_config_data all_scripts flow_views
              (scripts data)) as [Hse Hso].
  assert (Herr : forall e, Session_serialize cfg_name generate_config_data data
                    all_scripts flow_views = inl e -> e = KeyError).
  { unfold Session_serialize. intros e.
    destruct (complete_all _ _ _ _ (function_scripts data)) as [e1|fs] eqn:E1.
    - intros He. injection He as He'. subst e. exact (Hfe e1 eq_refl).
    - destruct (complete_all _ _ _ _ (scripts data)) as [e2|ss] eqn:E2; [| discriminate].
      intros He. injection He as He'. subst e. exact (Hse e2 eq_refl). }
  split; [| exact Herr]. split.
  - intros Hk Hall. apply Forall_app in Hall as [Hf Hs].
    destruct (complete_all_spec cfg_name generate_config_data all_scripts flow_views
                _ Hnd Hf) as (fs & Efs & _).
    destruct (complete_all_spec cfg_name generate_config_data all_scripts flow_views
                _ Hnd Hs) as (ss & Ess & _).
    unfold Session_serialize in Hk. rewrite Efs, Ess in Hk. discriminate Hk.
  - intros Hnot.
    destruct (Session_serialize cfg_name generate_config_data data all_scripts flow_views)
      as [e|r] eqn:E.
    + rewrite (Herr e eq_refl). reflexivity.
    + exfalso. apply Hnot. unfold Session_serialize in E.
      destruct (complete_all _ _ _ _ (function_scripts data)) as [e1|fs] eqn:E1;
        [discriminate |].
      destruct (complete_all _ _ _ _ (scripts data)) as [e2|ss] eqn:E2; [discriminate |].
      apply Forall_app. split; [exact (Hfo fs eq_refl) | exact (Hso ss eq_refl)].
Qed.

Lemma Session_serialize_key_error_witness :
  let scripts0 := [mkScript 0%nat "main"] in
  let views0 : gmap nat string := <[0%nat := ":layout0"]> ∅ in
  let data0 := mkCoreData ["ghost"] ["main"] in
  NoDup (map title scripts0) /\
  (Session_serialize (@Some string) (fun v c => String.append c v) data0 scripts0 views0
     = inl KeyError <->
   ~ Forall (has_view (@Some string) scripts0 views0)
       (function_scripts data0 ++ scripts data0)) /\
  Session_serialize (@Some string) (fun v c => String.append c v) data0 scripts0 views0
    = inl KeyError.
Proof.
  intros scripts0 views0 data0.
  assert (Hnd : NoDup (map title scripts0)) by (repeat constructor; set_solver).
  split; [exact Hnd | split; [| reflexivity]].
  exact (proj1 (Session_serialize_key_error (@Some string) (fun v c => String.append c v)
                  data0 scripts0 views0 Hnd)).
Defined.

(** ** shorten: budgets below the marker's length *)

(** A string longer than a budget smaller than the marker ([' . . . '], or
    the marker wrapped in newlines) is never shortened to fit: the result
    holds the whole marker and so exceeds the budget. *)
Theorem shorten_small_budget_exceeds (s : pystr) (max_chars : Z) (line_break : bool) :
  max_chars < py_len (shorten_insert line_break) -> max_chars < py_len s ->
  max_chars < py_len (shorten s max_chars line_break).
Proof.
  intros Hsmall Hlong. rewrite shorten_long by exact Hlong.
  unfold py_len in *. rewrite !length_app. lia.
Qed.

Lemma shorten_small_budget_exceeds_witness :
  3 < py_len (shorten_insert false) /\ 3 < py_len (lit "abcdefgh") /\
  3 < py_len (shorten (lit "abcdefgh") 3 false).
Proof.
  assert (H1 : 3 < py_len (shorten_insert false)) by reflexivity.
  assert (H2 : 3 < py_len (lit "abcdefgh")) by reflexivity.
  split; [exact H1 | split; [exact H2 |]].
  exact (shorten_small_budget_exceeds (lit "abcdefgh") 3 false H1 H2).
Defined.
